(** * SwiftPrintTrace: the CPrintTrace header shims

    The repository is two C headers, [Sources/CPrintTrace/shim.h] and
    [Sources/CPrintTrace/ios_shim.h].  Each one is an include guard around a
    single [#if ... #else ... #endif] that pulls the PrintTrace API in
    either from the framework ([#import <PrintTrace/PrintTraceAPI.h>]) or
    from the plain include path ([#include <PrintTraceAPI.h>]).

    The development embeds the two headers as functions on the state of a
    C preprocessor working through one translation unit: the table of
    defined macros, the bookkeeping [#import] needs, and the declarations
    made visible so far.  A fatal diagnostic ends the run. *)

From Stdlib Require Import ZArith.
From stdpp Require Import gmap strings list fin_maps.

(** ** A preprocessor, as far as the two headers use one *)

Module Cpp.

(** The replacement list of an object-like macro.  [#define G] gives [G]
    an empty list; a platform indicator, whether it comes from [-DNAME=v]
    or from [TargetConditionals.h], carries an integer. *)
Inductive macro_body : Type :=
  | Body_empty
  | Body_int (v : Z).

Inductive diagnostic : Type :=
  | File_not_found (path : string)
  | Missing_operand (name : string).

(** A step of preprocessing either goes on with a value or reports a
    diagnostic.  A diagnostic means the compilation fails; what a compiler
    may still read after reporting one is not followed. *)
Inductive result (A : Type) : Type :=
  | Ok (a : A)
  | Fatal (d : diagnostic).

Arguments Ok {A} a.
Arguments Fatal {A} d.

Definition bind {A B : Type} (r : result A) (k : A → result B) : result B :=
  match r with
  | Ok a => k a
  | Fatal d => Fatal d
  end.

Notation "'let*' x ':=' r 'in' k" := (bind r (fun x => k))
  (at level 10, x name, r at level 100, k at level 200,
   format "'[v' 'let*'  x  ':='  r  'in' '/' k ']'").

(** The state of one translation unit.  [entered] holds the headers
    whose text has been read at least once, [once_only] those an
    [#import] has marked; [decls] is what the translation unit can see. *)
Record tu_state : Type := Tu_state {
  macros : gmap string macro_body;
  entered : gset string;
  once_only : gset string;
  decls : list string
}.

(** Modelled from the spec: the PrintTrace API headers, which are not
    part of the repository.  The spec describes the consumed interface as
    a fixed set of C-callable declarations, so a header is the list of
    declarations it makes, and the search path resolves a name to the
    header found or to nothing. *)
Definition search_path : Type := string → option (list string).

(** [#ifdef] / [#ifndef] look at definedness only. *)
Definition defined (name : string) (st : tu_state) : bool :=
  match macros st !! name with
  | Some _ => true
  | None => false
  end.

(** [#define name body] *)
Definition define (name : string) (body : macro_body) (st : tu_state) : tu_state :=
  Tu_state (<[name := body]> (macros st)) (entered st) (once_only st) (decls st).

(** An identifier inside [#if]: an undefined one counts as 0, one with an
    integer body as that integer; one that expands to nothing leaves the
    operator without its operand and the expression is rejected.  The
    integer is taken as written, which is what [#if] computes with as long
    as its 64 bits can hold it. *)
Definition operand (name : string) (st : tu_state) : result Z :=
  match macros st !! name with
  | None => Ok 0%Z
  | Some (Body_int v) => Ok v
  | Some Body_empty => Fatal (Missing_operand name)
  end.

(** C's [||]: 1 when either side is not 0, else 0. *)
Definition lor (a b : Z) : Z :=
  if (a =? 0)%Z && (b =? 0)%Z then 0%Z else 1%Z.

(** [#if v] takes its group when [v] is not 0. *)
Definition nonzero (v : Z) : bool := negb (v =? 0)%Z.

(** Reading the text of a header found on the search path. *)
Definition enter (path : string) (ds : list string) (st : tu_state) : tu_state :=
  Tu_state (macros st) ({[path]} ∪ entered st) (once_only st) (decls st ++ ds).

Definition mark_once (path : string) (st : tu_state) : tu_state :=
  Tu_state (macros st) (entered st) ({[path]} ∪ once_only st) (decls st).

(** [#include <path>]: the file must be found; it is read again each time
    unless an [#import] has marked it. *)
Definition include (fs : search_path) (path : string) (st : tu_state) : result tu_state :=
  match fs path with
  | None => Fatal (File_not_found path)
  | Some ds =>
      if decide (path ∈ once_only st) then Ok st else Ok (enter path ds st)
  end.

(** [#import <path>]: the file must be found; it is marked, and read only
    if it has not been read before. *)
Definition import (fs : search_path) (path : string) (st : tu_state) : result tu_state :=
  match fs path with
  | None => Fatal (File_not_found path)
  | Some ds =>
      let st1 := mark_once path st in
      if decide (path ∈ entered st) then Ok st1 else Ok (enter path ds st1)
  end.

(** The two directives the shims choose between. *)
Inductive directive : Type :=
  | Import (path : string)
  | Include (path : string).

Definition run (fs : search_path) (d : directive) (st : tu_state) : result tu_state :=
  match d with
  | Import p => import fs p st
  | Include p => include fs p st
  end.

Definition path_of (d : directive) : string :=
  match d with
  | Import p => p
  | Include p => p
  end.

(** Processing a header [n] times in a row. *)
Fixpoint times (n : nat) (file : tu_state → result tu_state) (st : tu_state) : result tu_state :=
  match n with
  | O => Ok st
  | S k => let* st1 := file st in times k file st1
  end.

(** Processing a list of headers in the order given. *)
Fixpoint sequence (files : list (tu_state → result tu_state)) (st : tu_state) : result tu_state :=
  match files with
  | [] => Ok st
  | f :: rest => let* st1 := f st in sequence rest st1
  end.

End Cpp.

Import Cpp.

(** ** The two headers *)

Definition TARGET_OS_IOS : string := "TARGET_OS_IOS".
Definition TARGET_OS_TV : string := "TARGET_OS_TV".
Definition TARGET_OS_WATCH : string := "TARGET_OS_WATCH".

Definition CPRINTTRACE_SHIM_H : string := "CPRINTTRACE_SHIM_H".
Definition CPRINTTRACE_IOS_SHIM_H : string := "CPRINTTRACE_IOS_SHIM_H".

Definition framework_header : string := "PrintTrace/PrintTraceAPI.h".
Definition plain_header : string := "PrintTraceAPI.h".

(** shim.h, lines 4 to 10:
<<
#if TARGET_OS_IOS || TARGET_OS_TV || TARGET_OS_WATCH
#import <PrintTrace/PrintTraceAPI.h>
#else
#include <PrintTraceAPI.h>
#endif
>> *)
Definition shim_h_select (st : tu_state) : result directive :=
  let* a := operand TARGET_OS_IOS st in
  let* b := operand TARGET_OS_TV st in
  let* c := operand TARGET_OS_WATCH st in
  if nonzero (lor (lor a b) c)
  then Ok (Import framework_header)
  else Ok (Include plain_header).

(** shim.h, the whole file:
<<
#ifndef CPRINTTRACE_SHIM_H
#define CPRINTTRACE_SHIM_H
...
#endif
>> *)
Definition shim_h (fs : search_path) (st : tu_state) : result tu_state :=
  if defined CPRINTTRACE_SHIM_H st then Ok st
  else
    let st1 := define CPRINTTRACE_SHIM_H Body_empty st in
    let* d := shim_h_select st1 in
    run fs d st1.

(** ios_shim.h, lines 5 to 15: the same conditional, written a second
    time. *)
Definition ios_shim_h_select (st : tu_state) : result directive :=
  let* a := operand TARGET_OS_IOS st in
  let* b := operand TARGET_OS_TV st in
  let* c := operand TARGET_OS_WATCH st in
  if nonzero (lor (lor a b) c)
  then Ok (Import framework_header)
  else Ok (Include plain_header).

(** ios_shim.h, the whole file, under its own guard. *)
Definition ios_shim_h (fs : search_path) (st : tu_state) : result tu_state :=
  if defined CPRINTTRACE_IOS_SHIM_H st then Ok st
  else
    let st1 := define CPRINTTRACE_IOS_SHIM_H Body_empty st in
    let* d := ios_shim_h_select st1 in
    run fs d st1.

(** ** Platform flag configurations *)

(** What the build environment says about the target: each indicator is
    either not defined at all or defined to an integer. *)
Record PlatformFlags : Type := Platform_flags {
  flag_ios : option Z;
  flag_tv : option Z;
  flag_watch : option Z
}.

(** A flag is set when it is defined to something other than 0. *)
Definition flag_set (f : option Z) : bool :=
  match f with
  | Some v => negb (v =? 0)%Z
  | None => false
  end.

(** [#if] computes in [intmax_t] and [uintmax_t]: the integers it can
    hold run from -2^63 up to, not including, 2^64.  What becomes of a
    literal outside that range is each compiler's own affair (one wraps it
    round with a warning, another rejects it), and [Body_int] says nothing
    about it: the statements about configurations are about indicators in
    range. *)
Definition representable (v : Z) : bool :=
  (- 2 ^ 63 <=? v)%Z && (v <? 2 ^ 64)%Z.

Definition flag_in_range (f : option Z) : bool :=
  match f with
  | Some v => representable v
  | None => true
  end.

Definition in_range (cfg : PlatformFlags) : bool :=
  flag_in_range (flag_ios cfg) && flag_in_range (flag_tv cfg) &&
  flag_in_range (flag_watch cfg).

(** The spec's [isAppleMobilePlatform = iOS || tvOS || watchOS]. *)
Definition isAppleMobilePlatform (cfg : PlatformFlags) : bool :=
  flag_set (flag_ios cfg) || flag_set (flag_tv cfg) || flag_set (flag_watch cfg).

Definition set_flag (name : string) (f : option Z)
    (m : gmap string macro_body) : gmap string macro_body :=
  match f with
  | Some v => <[name := Body_int v]> m
  | None => delete name m
  end.

(** A translation unit state in which the three indicators are as [cfg]
    says and everything else is as in [st]. *)
Definition configure (cfg : PlatformFlags) (st : tu_state) : tu_state :=
  Tu_state
    (set_flag TARGET_OS_IOS (flag_ios cfg)
       (set_flag TARGET_OS_TV (flag_tv cfg)
          (set_flag TARGET_OS_WATCH (flag_watch cfg) (macros st))))
    (entered st) (once_only st) (decls st).

(** The start of a translation unit, before and after the build
    environment has set it up for [cfg]. *)
Definition empty_tu : tu_state := Tu_state ∅ ∅ ∅ [].

Definition fresh (cfg : PlatformFlags) : tu_state := configure cfg empty_tu.

(** The directive the spec's selector names for a configuration. *)
Definition selected (cfg : PlatformFlags) : directive :=
  if isAppleMobilePlatform cfg
  then Import framework_header
  else Include plain_header.

(** ** Notions the statements use *)

(** The value [#if] sees for an indicator. *)
Definition flag_value (f : option Z) : Z := default 0%Z f.

#[global] Instance directive_eq_dec : EqDecision directive.
Proof. solve_decision. Defined.

(** Whether a conditional, in a given state, reaches the directive [d]. *)
Definition branch_active (select : tu_state → result directive)
    (d : directive) (st : tu_state) : bool :=
  match select st with
  | Ok d' => bool_decide (d' = d)
  | Fatal _ => false
  end.

(** The declarations a run ends with, if it ends well. *)
Definition decls_of (r : result tu_state) : option (list string) :=
  match r with
  | Ok st => Some (decls st)
  | Fatal _ => None
  end.

(** Two states that give the three indicators the same meaning. *)
Definition same_flags (st1 st2 : tu_state) : Prop :=
  macros st1 !! TARGET_OS_IOS = macros st2 !! TARGET_OS_IOS ∧
  macros st1 !! TARGET_OS_TV = macros st2 !! TARGET_OS_TV ∧
  macros st1 !! TARGET_OS_WATCH = macros st2 !! TARGET_OS_WATCH.

(** ** Sample build environments *)

Definition ios_target : PlatformFlags := Platform_flags (Some 1%Z) (Some 0%Z) (Some 0%Z).
Definition tvos_target : PlatformFlags := Platform_flags (Some 0%Z) (Some 1%Z) (Some 0%Z).
Definition macos_target : PlatformFlags := Platform_flags (Some 0%Z) (Some 0%Z) (Some 0%Z).
Definition linux_target : PlatformFlags := Platform_flags None None None.

Definition sample_api : list string := ["print_trace_process"; "print_trace_free"].

(** Both packagings installed, the framework only, the plain header only. *)
Definition both_installed : search_path :=
  fun p =>
    if decide (p = framework_header) then Some sample_api
    else if decide (p = plain_header) then Some sample_api
    else None.

Definition plain_only : search_path :=
  fun p => if decide (p = plain_header) then Some sample_api else None.

(** A translation unit that has already seen something unrelated. *)
Definition busy_tu : tu_state :=
  Tu_state {[ "NDEBUG" := Body_int 1%Z ]} {[ "stdio.h" ]} ∅ ["printf"].

(** ** Translation units that name the headers *)

(** The two headers of the repository, as an including file names them. *)
Inductive header : Type :=
  | Shim_h
  | Ios_shim_h.

#[global] Instance header_eq_dec : EqDecision header.
Proof. solve_decision. Defined.

Definition process (fs : search_path) (h : header) : tu_state → result tu_state :=
  match h with
  | Shim_h => shim_h fs
  | Ios_shim_h => ios_shim_h fs
  end.

Definition guard_of (h : header) : string :=
  match h with
  | Shim_h => CPRINTTRACE_SHIM_H
  | Ios_shim_h => CPRINTTRACE_IOS_SHIM_H
  end.

(** A run of [#include "shim.h"] and [#include "ios_shim.h"] lines, in
    the order written. *)
Definition includes (fs : search_path) (l : list header) : tu_state → result tu_state :=
  sequence (map (process fs) l).

(** The same lines with the repetitions struck out and shim.h first. *)
Definition each_once (l : list header) : list header :=
  (if decide (Shim_h ∈ l) then [Shim_h] else []) ++
  (if decide (Ios_shim_h ∈ l) then [Ios_shim_h] else []).

(** The headers a run has read, if it ends well. *)
Definition entered_of (r : result tu_state) : option (gset string) :=
  match r with
  | Ok st => Some (entered st)
  | Fatal _ => None
  end.

(** [busy_tu] after it has included both headers, with both packagings
    installed and no indicator defined. *)
Definition after_both_shims : tu_state :=
  Tu_state
    (<[CPRINTTRACE_IOS_SHIM_H := Body_empty]>
       (<[CPRINTTRACE_SHIM_H := Body_empty]> {[ "NDEBUG" := Body_int 1%Z ]}))
    ({[ plain_header ]} ∪ {[ "stdio.h" ]}) ∅
    (["printf"] ++ sample_api ++ sample_api).

(** ** Reading the indicators *)

Section Operands.

Implicit Types (cfg : PlatformFlags) (st : tu_state) (name : string).

Lemma lookup_set_flag_eq name f (m : gmap string macro_body) :
  set_flag name f m !! name = Body_int <$> f.
Proof.
  destruct f as [v|]; simpl.
  - apply lookup_insert_eq.
  - apply lookup_delete_eq.
Qed.

Lemma lookup_set_flag_ne name name' f (m : gmap string macro_body) :
  name ≠ name' → set_flag name f m !! name' = m !! name'.
Proof.
  intros Hne. destruct f as [v|]; simpl.
  - by apply lookup_insert_ne.
  - by apply lookup_delete_ne.
Qed.

Lemma operand_of_lookup name st f :
  macros st !! name = Body_int <$> f → operand name st = Ok (flag_value f).
Proof. unfold operand. intros ->. by destruct f. Qed.

Lemma lookup_configure_ios cfg st :
  macros (configure cfg st) !! TARGET_OS_IOS = Body_int <$> flag_ios cfg.
Proof. simpl. apply lookup_set_flag_eq. Qed.

Lemma lookup_configure_tv cfg st :
  macros (configure cfg st) !! TARGET_OS_TV = Body_int <$> flag_tv cfg.
Proof.
  simpl. rewrite lookup_set_flag_ne by discriminate. apply lookup_set_flag_eq.
Qed.

Lemma lookup_configure_watch cfg st :
  macros (configure cfg st) !! TARGET_OS_WATCH = Body_int <$> flag_watch cfg.
Proof.
  simpl. rewrite !lookup_set_flag_ne by discriminate. apply lookup_set_flag_eq.
Qed.

Lemma lookup_configure_other cfg st name :
  name ≠ TARGET_OS_IOS → name ≠ TARGET_OS_TV → name ≠ TARGET_OS_WATCH →
  macros (configure cfg st) !! name = macros st !! name.
Proof.
  intros H1 H2 H3. simpl. by rewrite !lookup_set_flag_ne.
Qed.

(** Every state whose indicators are integers or undefined is a
    configured state, so the statements over [configure] leave none of
    them out. *)
Lemma configure_id st (a b c : option Z) :
  macros st !! TARGET_OS_IOS = Body_int <$> a →
  macros st !! TARGET_OS_TV = Body_int <$> b →
  macros st !! TARGET_OS_WATCH = Body_int <$> c →
  configure (Platform_flags a b c) st = st.
Proof.
  intros Ha Hb Hc. destruct st as [m e o ds]; simpl in *.
  unfold configure; simpl. f_equal. apply map_eq. intros name.
  destruct (decide (name = TARGET_OS_IOS)) as [->|Hi].
  { by rewrite lookup_set_flag_eq. }
  rewrite lookup_set_flag_ne by done.
  destruct (decide (name = TARGET_OS_TV)) as [->|Ht].
  { by rewrite lookup_set_flag_eq. }
  rewrite lookup_set_flag_ne by done.
  destruct (decide (name = TARGET_OS_WATCH)) as [->|Hw].
  { by rewrite lookup_set_flag_eq. }
  by rewrite lookup_set_flag_ne.
Qed.

Lemma operand_define_ne name g body st :
  g ≠ name → operand name (define g body st) = operand name st.
Proof.
  intros Hne. unfold operand, define; simpl. by rewrite lookup_insert_ne.
Qed.

Lemma nonzero_lor_flags (a b c : option Z) :
  nonzero (lor (lor (flag_value a) (flag_value b)) (flag_value c))
  = flag_set a || flag_set b || flag_set c.
Proof.
  assert (Hz : ∀ f, (flag_value f =? 0)%Z = negb (flag_set f)).
  { intros [v|]; simpl; [by rewrite negb_involutive | done]. }
  unfold nonzero, lor. rewrite !Hz.
  by destruct (flag_set a), (flag_set b), (flag_set c).
Qed.

(** What the conditional of either header computes from a state whose
    three indicators are integers or undefined. *)
Lemma condition_of_lookups st (a b c : option Z) :
  macros st !! TARGET_OS_IOS = Body_int <$> a →
  macros st !! TARGET_OS_TV = Body_int <$> b →
  macros st !! TARGET_OS_WATCH = Body_int <$> c →
  shim_h_select st = Ok (selected (Platform_flags a b c)) ∧
  ios_shim_h_select st = Ok (selected (Platform_flags a b c)).
Proof.
  intros Ha Hb Hc. unfold shim_h_select, ios_shim_h_select, selected.
  rewrite (operand_of_lookup _ _ _ Ha), (operand_of_lookup _ _ _ Hb),
    (operand_of_lookup _ _ _ Hc). simpl.
  rewrite nonzero_lor_flags. unfold isAppleMobilePlatform; simpl.
  by destruct (flag_set a || flag_set b || flag_set c).
Qed.

Lemma shim_h_select_configure cfg st :
  shim_h_select (configure cfg st) = Ok (selected cfg).
Proof.
  destruct cfg as [a b c].
  apply (condition_of_lookups _ a b c);
    [apply lookup_configure_ios | apply lookup_configure_tv
    | apply lookup_configure_watch].
Qed.

Lemma ios_shim_h_select_configure cfg st :
  ios_shim_h_select (configure cfg st) = Ok (selected cfg).
Proof.
  destruct cfg as [a b c].
  apply (condition_of_lookups _ a b c);
    [apply lookup_configure_ios | apply lookup_configure_tv
    | apply lookup_configure_watch].
Qed.

(** Defining a guard does not disturb the conditional. *)
Lemma shim_h_select_define g body st :
  g ≠ TARGET_OS_IOS → g ≠ TARGET_OS_TV → g ≠ TARGET_OS_WATCH →
  shim_h_select (define g body st) = shim_h_select st.
Proof.
  intros H1 H2 H3. unfold shim_h_select. by rewrite !operand_define_ne.
Qed.

Lemma ios_shim_h_select_define g body st :
  g ≠ TARGET_OS_IOS → g ≠ TARGET_OS_TV → g ≠ TARGET_OS_WATCH →
  ios_shim_h_select (define g body st) = ios_shim_h_select st.
Proof.
  intros H1 H2 H3. unfold ios_shim_h_select. by rewrite !operand_define_ne.
Qed.

End Operands.

(** ** The headers as wholes *)

Section Files.

Variable fs : search_path.

Implicit Types (cfg : PlatformFlags) (st : tu_state) (d : directive).

Lemma defined_define_eq name body st : defined name (define name body st) = true.
Proof. unfold defined, define; simpl. by rewrite lookup_insert_eq. Qed.

Lemma defined_configure cfg st name :
  name ≠ TARGET_OS_IOS → name ≠ TARGET_OS_TV → name ≠ TARGET_OS_WATCH →
  defined name (configure cfg st) = defined name st.
Proof. intros H1 H2 H3. unfold defined. by rewrite lookup_configure_other. Qed.

(** Neither directive touches the macro table. *)
Lemma run_macros d st st' : run fs d st = Ok st' → macros st' = macros st.
Proof.
  destruct d as [p|p]; simpl; unfold import, include;
    destruct (fs p) as [ds|]; try discriminate;
    case_decide; intros [= <-]; reflexivity.
Qed.

(** A directive adds the declarations of its header or adds nothing. *)
Lemma run_decls d st st' :
  run fs d st = Ok st' →
  ∃ ds, fs (path_of d) = Some ds ∧
        (decls st' = decls st ++ ds ∨ decls st' = decls st).
Proof.
  destruct d as [p|p]; simpl; unfold import, include;
    destruct (fs p) as [ds|]; try discriminate;
    case_decide; intros [= <-]; exists ds; simpl; auto.
Qed.

Lemma run_missing d st :
  fs (path_of d) = None → run fs d st = Fatal (File_not_found (path_of d)).
Proof.
  destruct d as [p|p]; simpl; unfold import, include; by intros ->.
Qed.

(** A header not met before is read, whichever directive names it. *)
Lemma run_new d st ds :
  fs (path_of d) = Some ds →
  path_of d ∉ entered st → path_of d ∉ once_only st →
  ∃ st', run fs d st = Ok st' ∧ macros st' = macros st ∧
         decls st' = decls st ++ ds.
Proof.
  destruct d as [p|p]; simpl; unfold import, include; intros -> He Ho;
    rewrite decide_False by done; eexists; split; reflexivity || done.
Qed.

(** shim.h on its first inclusion and on the later ones. *)
Lemma shim_h_first st :
  defined CPRINTTRACE_SHIM_H st = false →
  shim_h fs st =
    let* d := shim_h_select st in run fs d (define CPRINTTRACE_SHIM_H Body_empty st).
Proof.
  intros Hg. unfold shim_h. rewrite Hg.
  by rewrite shim_h_select_define by discriminate.
Qed.

Lemma shim_h_guarded st :
  defined CPRINTTRACE_SHIM_H st = true → shim_h fs st = Ok st.
Proof. intros Hg. unfold shim_h. by rewrite Hg. Qed.

Lemma ios_shim_h_first st :
  defined CPRINTTRACE_IOS_SHIM_H st = false →
  ios_shim_h fs st =
    let* d := ios_shim_h_select st in
    run fs d (define CPRINTTRACE_IOS_SHIM_H Body_empty st).
Proof.
  intros Hg. unfold ios_shim_h. rewrite Hg.
  by rewrite ios_shim_h_select_define by discriminate.
Qed.

Lemma ios_shim_h_guarded st :
  defined CPRINTTRACE_IOS_SHIM_H st = true → ios_shim_h fs st = Ok st.
Proof. intros Hg. unfold ios_shim_h. by rewrite Hg. Qed.

(** Either header leaves its guard defined behind it. *)
Lemma shim_h_leaves_guard st st' :
  shim_h fs st = Ok st' → defined CPRINTTRACE_SHIM_H st' = true.
Proof.
  unfold shim_h. destruct (defined CPRINTTRACE_SHIM_H st) eqn:Hg.
  - by intros [= <-].
  - destruct (shim_h_select _) as [d|e]; simpl; [|discriminate].
    intros Hrun. unfold defined. rewrite (run_macros _ _ _ Hrun).
    apply defined_define_eq.
Qed.

Lemma ios_shim_h_leaves_guard st st' :
  ios_shim_h fs st = Ok st' → defined CPRINTTRACE_IOS_SHIM_H st' = true.
Proof.
  unfold ios_shim_h. destruct (defined CPRINTTRACE_IOS_SHIM_H st) eqn:Hg.
  - by intros [= <-].
  - destruct (ios_shim_h_select _) as [d|e]; simpl; [|discriminate].
    intros Hrun. unfold defined. rewrite (run_macros _ _ _ Hrun).
    apply defined_define_eq.
Qed.

(** The only macro either header can add is its own guard. *)
Lemma shim_h_macros st st' :
  shim_h fs st = Ok st' →
  macros st' = macros st ∨
  macros st' = <[CPRINTTRACE_SHIM_H := Body_empty]> (macros st).
Proof.
  unfold shim_h. destruct (defined CPRINTTRACE_SHIM_H st).
  - intros [= <-]. by left.
  - destruct (shim_h_select _) as [d|e]; simpl; [|discriminate].
    intros Hrun. right. by rewrite (run_macros _ _ _ Hrun).
Qed.

Lemma ios_shim_h_macros st st' :
  ios_shim_h fs st = Ok st' →
  macros st' = macros st ∨
  macros st' = <[CPRINTTRACE_IOS_SHIM_H := Body_empty]> (macros st).
Proof.
  unfold ios_shim_h. destruct (defined CPRINTTRACE_IOS_SHIM_H st).
  - intros [= <-]. by left.
  - destruct (ios_shim_h_select _) as [d|e]; simpl; [|discriminate].
    intros Hrun. right. by rewrite (run_macros _ _ _ Hrun).
Qed.

(** Once a header has gone through, going through it again changes
    nothing. *)
Lemma times_fixed (file : tu_state → result tu_state) st n :
  file st = Ok st → times n file st = Ok st.
Proof. intros Hfix. induction n as [|n IH]; simpl; [done | by rewrite Hfix]. Qed.

Lemma times_guarded (file : tu_state → result tu_state) st n :
  (∀ s s', file s = Ok s' → file s' = Ok s') →
  times (S n) file st = file st.
Proof.
  intros Hidem. simpl. destruct (file st) as [st'|e] eqn:Hf; simpl; [|done].
  apply times_fixed. by apply (Hidem st).
Qed.

End Files.

(** ** The selection (C1, C2, C3, C5, C7, C9) *)

Section Selection.

Implicit Types (cfg : PlatformFlags) (st : tu_state).

Lemma selected_import cfg :
  selected cfg = Import framework_header ↔ isAppleMobilePlatform cfg = true.
Proof. unfold selected. destruct (isAppleMobilePlatform cfg); split; done. Qed.

Lemma selected_include cfg :
  selected cfg = Include plain_header ↔ isAppleMobilePlatform cfg = false.
Proof. unfold selected. destruct (isAppleMobilePlatform cfg); split; done. Qed.

Lemma apple_mobile_some cfg :
  isAppleMobilePlatform cfg = true ↔
  flag_set (flag_ios cfg) = true ∨ flag_set (flag_tv cfg) = true ∨
  flag_set (flag_watch cfg) = true.
Proof.
  unfold isAppleMobilePlatform.
  destruct (flag_set (flag_ios cfg)), (flag_set (flag_tv cfg)),
    (flag_set (flag_watch cfg)); simpl; intuition congruence.
Qed.

Lemma apple_mobile_none cfg :
  isAppleMobilePlatform cfg = false ↔
  flag_set (flag_ios cfg) = false ∧ flag_set (flag_tv cfg) = false ∧
  flag_set (flag_watch cfg) = false.
Proof.
  unfold isAppleMobilePlatform.
  destruct (flag_set (flag_ios cfg)), (flag_set (flag_tv cfg)),
    (flag_set (flag_watch cfg)); simpl; intuition congruence.
Qed.

(** C1.  Whatever the build configuration, with indicators the
    preprocessor can hold, the conditional of shim.h picks
    [#import <PrintTrace/PrintTraceAPI.h>] exactly when at least one of
    TARGET_OS_IOS, TARGET_OS_TV, TARGET_OS_WATCH is set, that is when
    [isAppleMobilePlatform] holds, and [#include <PrintTraceAPI.h>]
    exactly when none is. *)
Theorem shim_h_select_by_platform cfg st :
  in_range cfg = true →
  shim_h_select (configure cfg st)
    = Ok (if isAppleMobilePlatform cfg
          then Import framework_header else Include plain_header)
  ∧ (shim_h_select (configure cfg st) = Ok (Import framework_header)
       ↔ flag_set (flag_ios cfg) = true ∨ flag_set (flag_tv cfg) = true ∨
         flag_set (flag_watch cfg) = true)
  ∧ (shim_h_select (configure cfg st) = Ok (Include plain_header)
       ↔ flag_set (flag_ios cfg) = false ∧ flag_set (flag_tv cfg) = false ∧
         flag_set (flag_watch cfg) = false).
Proof.
  intros _. rewrite shim_h_select_configure. split; [reflexivity|]. split.
  - rewrite <- apple_mobile_some, <- selected_import.
    split; [by intros [= ->] | by intros ->].
  - rewrite <- apple_mobile_none, <- selected_include.
    split; [by intros [= ->] | by intros ->].
Qed.

Lemma shim_h_select_by_platform_witness :
  shim_h_select (configure tvos_target busy_tu)
    = Ok (if isAppleMobilePlatform tvos_target
          then Import framework_header else Include plain_header)
  ∧ (shim_h_select (configure tvos_target busy_tu) = Ok (Import framework_header)
       ↔ flag_set (flag_ios tvos_target) = true ∨
         flag_set (flag_tv tvos_target) = true ∨
         flag_set (flag_watch tvos_target) = true)
  ∧ (shim_h_select (configure tvos_target busy_tu) = Ok (Include plain_header)
       ↔ flag_set (flag_ios tvos_target) = false ∧
         flag_set (flag_tv tvos_target) = false ∧
         flag_set (flag_watch tvos_target) = false).
Proof.
  apply (shim_h_select_by_platform tvos_target busy_tu). reflexivity.
Defined.

(** C2.  The conditional of shim.h and the conditional of ios_shim.h are
    the same function of the preprocessor state: they agree on every
    state, also where an indicator is malformed and both are rejected, and
    under every build configuration with indicators the preprocessor can
    hold both resolve to the header the selector contract names. *)
Theorem shims_select_alike :
  (∀ st, shim_h_select st = ios_shim_h_select st) ∧
  (∀ cfg st, in_range cfg = true →
             shim_h_select (configure cfg st) = Ok (selected cfg) ∧
             ios_shim_h_select (configure cfg st) = Ok (selected cfg)).
Proof.
  split.
  - intros st. unfold shim_h_select, ios_shim_h_select.
    destruct (operand TARGET_OS_IOS st), (operand TARGET_OS_TV st),
      (operand TARGET_OS_WATCH st); reflexivity.
  - intros cfg st _. split;
      [apply shim_h_select_configure | apply ios_shim_h_select_configure].
Qed.

Lemma shims_select_alike_witness :
  shim_h_select (configure ios_target busy_tu) = Ok (selected ios_target) ∧
  ios_shim_h_select (configure ios_target busy_tu) = Ok (selected ios_target).
Proof.
  destruct shims_select_alike as [_ Hcfg].
  apply (Hcfg ios_target busy_tu). reflexivity.
Defined.

(** C3.  Under every build configuration exactly one of the two include
    lines is reached, in shim.h and in ios_shim.h alike: never both and
    never neither. *)
Theorem exactly_one_branch_active cfg st :
  xorb (branch_active shim_h_select (Import framework_header) (configure cfg st))
       (branch_active shim_h_select (Include plain_header) (configure cfg st))
    = true
  ∧
  xorb (branch_active ios_shim_h_select (Import framework_header) (configure cfg st))
       (branch_active ios_shim_h_select (Include plain_header) (configure cfg st))
    = true.
Proof.
  unfold branch_active.
  rewrite shim_h_select_configure, ios_shim_h_select_configure.
  unfold selected. by destruct (isAppleMobilePlatform cfg).
Qed.

(** The conditionals read nothing but the three indicators. *)
Lemma select_same_flags st1 st2 :
  same_flags st1 st2 →
  shim_h_select st1 = shim_h_select st2 ∧
  ios_shim_h_select st1 = ios_shim_h_select st2.
Proof.
  intros (Hi & Ht & Hw).
  unfold shim_h_select, ios_shim_h_select, operand.
  by rewrite Hi, Ht, Hw.
Qed.

Lemma select_range st d :
  shim_h_select st = Ok d ∨ ios_shim_h_select st = Ok d →
  d = Import framework_header ∨ d = Include plain_header.
Proof.
  unfold shim_h_select, ios_shim_h_select.
  destruct (operand TARGET_OS_IOS st) as [a|]; simpl; [|intros [|]; discriminate].
  destruct (operand TARGET_OS_TV st) as [b|]; simpl; [|intros [|]; discriminate].
  destruct (operand TARGET_OS_WATCH st) as [c|]; simpl; [|intros [|]; discriminate].
  destruct (nonzero _); intros [[= <-]|[= <-]]; auto.
Qed.

(** C5.  The selection is a function of the three indicators and of
    nothing else: two states that agree on them, however they differ
    otherwise, get the same answer from either header.  An answer is
    always one of the two include lines, each of the two is the answer
    for some configuration, and going through a header does nothing to
    the translation unit beyond defining the guard and carrying out the
    line selected. *)
Theorem selection_pure_and_two_valued (fs : search_path) st1 st2 :
  same_flags st1 st2 →
  (shim_h_select st1 = shim_h_select st2 ∧
   ios_shim_h_select st1 = ios_shim_h_select st2)
  ∧ (∀ d, shim_h_select st1 = Ok d ∨ ios_shim_h_select st1 = Ok d →
          d = Import framework_header ∨ d = Include plain_header)
  ∧ Import framework_header ≠ Include plain_header
  ∧ (∀ d, d = Import framework_header ∨ d = Include plain_header →
          ∃ cfg, ∀ st, shim_h_select (configure cfg st) = Ok d ∧
                       ios_shim_h_select (configure cfg st) = Ok d)
  ∧ (∀ st', shim_h fs st1 = Ok st' →
            st' = st1 ∨
            ∃ d, shim_h_select st1 = Ok d ∧
                 run fs d (define CPRINTTRACE_SHIM_H Body_empty st1) = Ok st')
  ∧ (∀ st', ios_shim_h fs st1 = Ok st' →
            st' = st1 ∨
            ∃ d, ios_shim_h_select st1 = Ok d ∧
                 run fs d (define CPRINTTRACE_IOS_SHIM_H Body_empty st1) = Ok st').
Proof.
  intros Hsame. split; [by apply select_same_flags|].
  split; [intros d; apply select_range|].
  split; [discriminate|].
  split.
  { intros d [->| ->]; [exists ios_target | exists linux_target]; intros st;
      by rewrite shim_h_select_configure, ios_shim_h_select_configure. }
  split; intros st'.
  - destruct (defined CPRINTTRACE_SHIM_H st1) eqn:Hg.
    + rewrite shim_h_guarded by done. intros [= <-]. by left.
    + rewrite shim_h_first by done.
      destruct (shim_h_select st1) as [d|e]; simpl; [|discriminate].
      intros Hrun. right. by exists d.
  - destruct (defined CPRINTTRACE_IOS_SHIM_H st1) eqn:Hg.
    + rewrite ios_shim_h_guarded by done. intros [= <-]. by left.
    + rewrite ios_shim_h_first by done.
      destruct (ios_shim_h_select st1) as [d|e]; simpl; [|discriminate].
      intros Hrun. right. by exists d.
Qed.

Lemma selection_pure_and_two_valued_witness :
  shim_h_select (fresh ios_target) = shim_h_select (configure ios_target busy_tu) ∧
  ios_shim_h_select (fresh ios_target)
    = ios_shim_h_select (configure ios_target busy_tu).
Proof.
  apply (selection_pure_and_two_valued both_installed
           (fresh ios_target) (configure ios_target busy_tu)).
  repeat split; vm_compute; reflexivity.
Defined.

(** C7.  Build the same translation unit once for an Apple mobile
    target and once for any other, the indicators being ones the
    preprocessor can hold: the two selections name different headers.
    Nothing but the flags decides it, since the rest of the state can be
    replaced without changing either answer. *)
Theorem flags_alone_switch_header cfg1 cfg2 st :
  in_range cfg1 = true →
  in_range cfg2 = true →
  isAppleMobilePlatform cfg1 = true →
  isAppleMobilePlatform cfg2 = false →
  ∃ d1 d2,
    shim_h_select (configure cfg1 st) = Ok d1 ∧
    shim_h_select (configure cfg2 st) = Ok d2 ∧
    d1 ≠ d2 ∧ path_of d1 ≠ path_of d2 ∧
    (∀ st', shim_h_select (configure cfg1 st') = Ok d1 ∧
            shim_h_select (configure cfg2 st') = Ok d2).
Proof.
  intros _ _ H1 H2. exists (Import framework_header), (Include plain_header).
  apply selected_import in H1. apply selected_include in H2.
  rewrite !shim_h_select_configure, H1, H2.
  repeat split; try discriminate.
  - by rewrite shim_h_select_configure, H1.
  - by rewrite shim_h_select_configure, H2.
Qed.

Lemma flags_alone_switch_header_witness :
  ∃ d1 d2,
    shim_h_select (configure ios_target busy_tu) = Ok d1 ∧
    shim_h_select (configure macos_target busy_tu) = Ok d2 ∧
    d1 ≠ d2 ∧ path_of d1 ≠ path_of d2 ∧
    (∀ st', shim_h_select (configure ios_target st') = Ok d1 ∧
            shim_h_select (configure macos_target st') = Ok d2).
Proof.
  apply (flags_alone_switch_header ios_target macos_target busy_tu);
    reflexivity.
Defined.

(** C9.  With none of TARGET_OS_IOS, TARGET_OS_TV, TARGET_OS_WATCH
    defined, each of them reads as 0 and both headers take the [#else]
    line, [#include <PrintTraceAPI.h>]. *)
Theorem plain_include_is_default st :
  macros st !! TARGET_OS_IOS = None →
  macros st !! TARGET_OS_TV = None →
  macros st !! TARGET_OS_WATCH = None →
  shim_h_select st = Ok (Include plain_header) ∧
  ios_shim_h_select st = Ok (Include plain_header) ∧
  branch_active shim_h_select (Import framework_header) st = false ∧
  branch_active ios_shim_h_select (Import framework_header) st = false.
Proof.
  intros Hi Ht Hw.
  destruct (condition_of_lookups st None None None Hi Ht Hw) as [H1 H2].
  unfold branch_active. rewrite H1, H2. repeat split; reflexivity.
Qed.

Lemma plain_include_is_default_witness :
  shim_h_select busy_tu = Ok (Include plain_header) ∧
  ios_shim_h_select busy_tu = Ok (Include plain_header) ∧
  branch_active shim_h_select (Import framework_header) busy_tu = false ∧
  branch_active ios_shim_h_select (Import framework_header) busy_tu = false.
Proof.
  apply (plain_include_is_default busy_tu); reflexivity.
Defined.

End Selection.

(** ** Going through the headers (C4, C6, C8, C10) *)

Section Inclusion.

Variable fs : search_path.

Implicit Types (cfg : PlatformFlags) (st : tu_state).

(** The first inclusion under a configuration carries out the line the
    selector names, with the guard already defined. *)
Lemma shim_h_configure_first cfg st :
  defined CPRINTTRACE_SHIM_H st = false →
  shim_h fs (configure cfg st) =
    run fs (selected cfg) (define CPRINTTRACE_SHIM_H Body_empty (configure cfg st)).
Proof.
  intros Hg. rewrite shim_h_first.
  - by rewrite shim_h_select_configure.
  - by rewrite defined_configure by discriminate.
Qed.

Lemma ios_shim_h_configure_first cfg st :
  defined CPRINTTRACE_IOS_SHIM_H st = false →
  ios_shim_h fs (configure cfg st) =
    run fs (selected cfg)
      (define CPRINTTRACE_IOS_SHIM_H Body_empty (configure cfg st)).
Proof.
  intros Hg. rewrite ios_shim_h_first.
  - by rewrite ios_shim_h_select_configure.
  - by rewrite defined_configure by discriminate.
Qed.

Lemma shim_h_idem st st' : shim_h fs st = Ok st' → shim_h fs st' = Ok st'.
Proof. intros H. apply shim_h_guarded. by apply (shim_h_leaves_guard fs st). Qed.

Lemma ios_shim_h_idem st st' :
  ios_shim_h fs st = Ok st' → ios_shim_h fs st' = Ok st'.
Proof.
  intros H. apply ios_shim_h_guarded. by apply (ios_shim_h_leaves_guard fs st).
Qed.

Lemma bind_ok {A : Type} (r : result A) : (let* a := r in Ok a) = r.
Proof. by destruct r. Qed.

(** C4.  On an Apple mobile target, told by indicators the preprocessor
    can hold, with no framework header on the search path, shim.h does
    not turn to the plain header, whether that
    one is installed or not: the conditional still picks the [#import],
    the [#include] line is not reached, the first inclusion ends in the
    missing-file diagnostic for the framework header, and the only way
    for shim.h to come back without a diagnostic is a later inclusion
    that the guard skips, which leaves the translation unit as it was. *)
Theorem no_fallback_to_plain_header cfg st :
  in_range cfg = true →
  isAppleMobilePlatform cfg = true →
  fs framework_header = None →
  shim_h_select (configure cfg st) = Ok (Import framework_header)
  ∧ branch_active shim_h_select (Include plain_header) (configure cfg st) = false
  ∧ (defined CPRINTTRACE_SHIM_H st = false →
       shim_h fs (configure cfg st) = Fatal (File_not_found framework_header))
  ∧ (∀ st', shim_h fs (configure cfg st) = Ok st' →
            defined CPRINTTRACE_SHIM_H st = true ∧ st' = configure cfg st).
Proof.
  intros _ Hmob Hmiss. apply selected_import in Hmob.
  assert (Hsel : shim_h_select (configure cfg st) = Ok (Import framework_header))
    by (by rewrite shim_h_select_configure, Hmob).
  split; [done|]. split; [unfold branch_active; by rewrite Hsel|].
  assert (Hfirst : defined CPRINTTRACE_SHIM_H st = false →
            shim_h fs (configure cfg st) = Fatal (File_not_found framework_header)).
  { intros Hg. rewrite shim_h_configure_first by done. rewrite Hmob.
    by apply (run_missing fs (Import framework_header)). }
  split; [done|]. intros st' Hok.
  destruct (defined CPRINTTRACE_SHIM_H st) eqn:Hg.
  - split; [done|]. rewrite shim_h_guarded in Hok.
    + by injection Hok as <-.
    + by rewrite defined_configure by discriminate.
  - rewrite Hfirst in Hok by done. discriminate.
Qed.

(** C6.  Going through shim.h, or ios_shim.h, any number of times above
    one leaves the translation unit exactly as going through it once
    does, from any state and with any search path, because every
    inclusion after one that came back finds the guard defined and
    changes nothing. *)
Theorem repeated_inclusion_idempotent st (n : nat) :
  (1 < n)%nat →
  times n (shim_h fs) st = times 1 (shim_h fs) st
  ∧ times n (ios_shim_h fs) st = times 1 (ios_shim_h fs) st
  ∧ (∀ st', shim_h fs st = Ok st' → shim_h fs st' = Ok st')
  ∧ (∀ st', ios_shim_h fs st = Ok st' → ios_shim_h fs st' = Ok st').
Proof.
  intros Hn. destruct n as [|n]; [lia|].
  rewrite !times_guarded by (apply shim_h_idem || apply ios_shim_h_idem).
  repeat split; [apply shim_h_idem | apply ios_shim_h_idem].
Qed.

(** C8.  Under a configuration with indicators the preprocessor can
    hold, what a shim adds to a translation unit that has not met the
    PrintTrace header yet is the declarations of the header its active
    line names and its own guard macro.  And in any state, a shim that
    comes back has changed the macro table by at most its guard and the
    declarations by at most those of that header. *)
Theorem shim_adds_api_and_guard_only cfg st (ds : list string) :
  in_range cfg = true →
  fs (path_of (selected cfg)) = Some ds →
  (defined CPRINTTRACE_SHIM_H st = false →
   path_of (selected cfg) ∉ entered st →
   path_of (selected cfg) ∉ once_only st →
   ∃ st', shim_h fs (configure cfg st) = Ok st' ∧
          macros st' = <[CPRINTTRACE_SHIM_H := Body_empty]> (macros (configure cfg st)) ∧
          decls st' = decls st ++ ds)
  ∧ (defined CPRINTTRACE_IOS_SHIM_H st = false →
     path_of (selected cfg) ∉ entered st →
     path_of (selected cfg) ∉ once_only st →
     ∃ st', ios_shim_h fs (configure cfg st) = Ok st' ∧
            macros st' = <[CPRINTTRACE_IOS_SHIM_H := Body_empty]> (macros (configure cfg st)) ∧
            decls st' = decls st ++ ds)
  ∧ (∀ st', shim_h fs (configure cfg st) = Ok st' →
        (macros st' = macros (configure cfg st) ∨
         macros st' = <[CPRINTTRACE_SHIM_H := Body_empty]> (macros (configure cfg st))) ∧
        (decls st' = decls st ∨ decls st' = decls st ++ ds))
  ∧ (∀ st', ios_shim_h fs (configure cfg st) = Ok st' →
        (macros st' = macros (configure cfg st) ∨
         macros st' = <[CPRINTTRACE_IOS_SHIM_H := Body_empty]> (macros (configure cfg st))) ∧
        (decls st' = decls st ∨ decls st' = decls st ++ ds)).
Proof.
  intros _ Hfs. split; [|split; [|split]].
  - intros Hg He Ho. rewrite shim_h_configure_first by done.
    destruct (run_new fs (selected cfg)
                (define CPRINTTRACE_SHIM_H Body_empty (configure cfg st)) ds)
      as (st' & Hrun & Hm & Hd); try done.
    by exists st'.
  - intros Hg He Ho. rewrite ios_shim_h_configure_first by done.
    destruct (run_new fs (selected cfg)
                (define CPRINTTRACE_IOS_SHIM_H Body_empty (configure cfg st)) ds)
      as (st' & Hrun & Hm & Hd); try done.
    by exists st'.
  - intros st' Hok. split; [by apply (shim_h_macros fs)|].
    destruct (defined CPRINTTRACE_SHIM_H st) eqn:Hg.
    + rewrite shim_h_guarded in Hok
        by (by rewrite defined_configure by discriminate).
      injection Hok as <-. by left.
    + rewrite shim_h_configure_first in Hok by done.
      destruct (run_decls fs _ _ _ Hok) as (ds' & Hfs' & Hd).
      rewrite Hfs in Hfs'. injection Hfs' as <-. simpl in Hd. tauto.
  - intros st' Hok. split; [by apply (ios_shim_h_macros fs)|].
    destruct (defined CPRINTTRACE_IOS_SHIM_H st) eqn:Hg.
    + rewrite ios_shim_h_guarded in Hok
        by (by rewrite defined_configure by discriminate).
      injection Hok as <-. by left.
    + rewrite ios_shim_h_configure_first in Hok by done.
      destruct (run_decls fs _ _ _ Hok) as (ds' & Hfs' & Hd).
      rewrite Hfs in Hfs'. injection Hfs' as <-. simpl in Hd. tauto.
Qed.

(** Each header leaves every macro but its own guard alone. *)
Lemma shim_h_frame st st' name :
  shim_h fs st = Ok st' → name ≠ CPRINTTRACE_SHIM_H →
  macros st' !! name = macros st !! name.
Proof.
  intros Hok Hne. destruct (shim_h_macros fs st st' Hok) as [-> | ->];
    [done | by rewrite lookup_insert_ne].
Qed.

Lemma ios_shim_h_frame st st' name :
  ios_shim_h fs st = Ok st' → name ≠ CPRINTTRACE_IOS_SHIM_H →
  macros st' !! name = macros st !! name.
Proof.
  intros Hok Hne. destruct (ios_shim_h_macros fs st st' Hok) as [-> | ->];
    [done | by rewrite lookup_insert_ne].
Qed.

Lemma same_flags_of_frame st st' g :
  g ≠ TARGET_OS_IOS → g ≠ TARGET_OS_TV → g ≠ TARGET_OS_WATCH →
  (∀ name, name ≠ g → macros st' !! name = macros st !! name) →
  same_flags st' st.
Proof. intros H1 H2 H3 Hfr. repeat split; by apply Hfr. Qed.

(** The second of two different shims, met after the first has gone
    through: its guard is as it was and its conditional answers as it
    would have. *)
Lemma ios_shim_h_after_shim_h st st' :
  shim_h fs st = Ok st' →
  defined CPRINTTRACE_IOS_SHIM_H st' = defined CPRINTTRACE_IOS_SHIM_H st ∧
  ios_shim_h_select st' = ios_shim_h_select st.
Proof.
  intros Hok. split.
  - unfold defined. by rewrite (shim_h_frame st st') by (done || discriminate).
  - apply select_same_flags.
    apply (same_flags_of_frame st st' CPRINTTRACE_SHIM_H); try discriminate.
    intros name Hne. by apply shim_h_frame.
Qed.

Lemma shim_h_after_ios_shim_h st st' :
  ios_shim_h fs st = Ok st' →
  defined CPRINTTRACE_SHIM_H st' = defined CPRINTTRACE_SHIM_H st ∧
  shim_h_select st' = shim_h_select st.
Proof.
  intros Hok. split.
  - unfold defined. by rewrite (ios_shim_h_frame st st') by (done || discriminate).
  - apply select_same_flags.
    apply (same_flags_of_frame st st' CPRINTTRACE_IOS_SHIM_H); try discriminate.
    intros name Hne. by apply ios_shim_h_frame.
Qed.

(** C10.  The guards of the two headers are different macros, so a
    translation unit that includes both, in either order and under any
    configuration with indicators the preprocessor can hold, has each of
    them make its selection on its own first
    inclusion: the header that comes second is not skipped, it defines its
    guard and carries out the line the configuration selects.  In general
    neither header changes whether the other's guard is defined nor what
    the other's conditional answers. *)
Theorem guards_independent cfg st :
  in_range cfg = true →
  defined CPRINTTRACE_SHIM_H st = false →
  defined CPRINTTRACE_IOS_SHIM_H st = false →
  CPRINTTRACE_SHIM_H ≠ CPRINTTRACE_IOS_SHIM_H
  ∧ sequence [shim_h fs; ios_shim_h fs] (configure cfg st) =
      (let* s1 := run fs (selected cfg)
                    (define CPRINTTRACE_SHIM_H Body_empty (configure cfg st)) in
       run fs (selected cfg) (define CPRINTTRACE_IOS_SHIM_H Body_empty s1))
  ∧ sequence [ios_shim_h fs; shim_h fs] (configure cfg st) =
      (let* s1 := run fs (selected cfg)
                    (define CPRINTTRACE_IOS_SHIM_H Body_empty (configure cfg st)) in
       run fs (selected cfg) (define CPRINTTRACE_SHIM_H Body_empty s1))
  ∧ (∀ s s', shim_h fs s = Ok s' →
       defined CPRINTTRACE_IOS_SHIM_H s' = defined CPRINTTRACE_IOS_SHIM_H s ∧
       ios_shim_h_select s' = ios_shim_h_select s)
  ∧ (∀ s s', ios_shim_h fs s = Ok s' →
       defined CPRINTTRACE_SHIM_H s' = defined CPRINTTRACE_SHIM_H s ∧
       shim_h_select s' = shim_h_select s).
Proof.
  intros _ Hg Hig.
  assert (Hcg : defined CPRINTTRACE_SHIM_H (configure cfg st) = false)
    by (by rewrite defined_configure by discriminate).
  assert (Hcig : defined CPRINTTRACE_IOS_SHIM_H (configure cfg st) = false)
    by (by rewrite defined_configure by discriminate).
  split; [discriminate|]. split; [|split].
  - simpl. destruct (shim_h fs (configure cfg st)) as [s1|e] eqn:Hfirst;
      rewrite shim_h_configure_first in Hfirst by done; rewrite Hfirst; simpl;
      [|done].
    rewrite <- shim_h_configure_first in Hfirst by done.
    destruct (ios_shim_h_after_shim_h _ _ Hfirst) as [Hd Hs].
    rewrite bind_ok, ios_shim_h_first by (by rewrite Hd).
    by rewrite Hs, ios_shim_h_select_configure.
  - simpl. destruct (ios_shim_h fs (configure cfg st)) as [s1|e] eqn:Hfirst;
      rewrite ios_shim_h_configure_first in Hfirst by done; rewrite Hfirst; simpl;
      [|done].
    rewrite <- ios_shim_h_configure_first in Hfirst by done.
    destruct (shim_h_after_ios_shim_h _ _ Hfirst) as [Hd Hs].
    rewrite bind_ok, shim_h_first by (by rewrite Hd).
    by rewrite Hs, shim_h_select_configure.
  - split; [apply ios_shim_h_after_shim_h | apply shim_h_after_ios_shim_h].
Qed.

End Inclusion.

(** ** The theorems at sample build environments *)

Lemma no_fallback_to_plain_header_witness :
  shim_h plain_only (fresh ios_target) = Fatal (File_not_found framework_header).
Proof.
  destruct (no_fallback_to_plain_header plain_only ios_target empty_tu)
    as (_ & _ & Hfirst & _); [reflexivity | reflexivity | reflexivity |].
  apply Hfirst. reflexivity.
Defined.

Lemma repeated_inclusion_idempotent_witness :
  times 3 (shim_h both_installed) (fresh ios_target)
    = times 1 (shim_h both_installed) (fresh ios_target)
  ∧ times 3 (ios_shim_h both_installed) (fresh ios_target)
    = times 1 (ios_shim_h both_installed) (fresh ios_target).
Proof.
  destruct (repeated_inclusion_idempotent both_installed (fresh ios_target) 3)
    as (Hshim & Hios & _); [lia|].
  split; [exact Hshim | exact Hios].
Defined.

Lemma shim_adds_api_and_guard_only_witness :
  ∃ st', shim_h both_installed (fresh macos_target) = Ok st' ∧
         macros st' = <[CPRINTTRACE_SHIM_H := Body_empty]> (macros (fresh macos_target)) ∧
         decls st' = sample_api.
Proof.
  destruct (shim_adds_api_and_guard_only both_installed macos_target empty_tu
              sample_api) as (Hshim & _); [reflexivity | reflexivity |].
  apply Hshim; [reflexivity | set_solver | set_solver].
Defined.

Lemma guards_independent_witness :
  sequence [shim_h both_installed; ios_shim_h both_installed] (fresh ios_target) =
    (let* s1 := run both_installed (selected ios_target)
                  (define CPRINTTRACE_SHIM_H Body_empty (fresh ios_target)) in
     run both_installed (selected ios_target)
       (define CPRINTTRACE_IOS_SHIM_H Body_empty s1)).
Proof.
  destruct (guards_independent both_installed ios_target empty_tu)
    as (_ & Hseq & _); [reflexivity | reflexivity | reflexivity |].
  exact Hseq.
Defined.

(** The three scenarios of the spec, run. *)

Example scenario_ios_framework :
  shim_h both_installed (fresh ios_target)
  = Ok (Tu_state (<[CPRINTTRACE_SHIM_H := Body_empty]> (macros (fresh ios_target)))
          {[framework_header]} {[framework_header]} sample_api).
Proof. vm_compute. reflexivity. Qed.

Example scenario_macos_plain :
  shim_h both_installed (fresh macos_target)
  = Ok (Tu_state (<[CPRINTTRACE_SHIM_H := Body_empty]> (macros (fresh macos_target)))
          {[plain_header]} ∅ sample_api).
Proof. vm_compute. reflexivity. Qed.

Example scenario_linux_plain :
  ios_shim_h plain_only (fresh linux_target)
  = Ok (Tu_state {[CPRINTTRACE_IOS_SHIM_H := Body_empty]}
          {[plain_header]} ∅ sample_api).
Proof. vm_compute. reflexivity. Qed.

Example scenario_ios_framework_missing :
  shim_h plain_only (fresh ios_target) = Fatal (File_not_found framework_header).
Proof. vm_compute. reflexivity. Qed.

(** Both shims in one translation unit: on an Apple mobile target the
    second [#import] finds the header already read, elsewhere the second
    [#include] reads it again. *)
Example both_shims_ios :
  decls_of (sequence [shim_h both_installed; ios_shim_h both_installed]
              (fresh ios_target)) = Some sample_api.
Proof. vm_compute. reflexivity. Qed.

Example both_shims_linux :
  decls_of (sequence [shim_h both_installed; ios_shim_h both_installed]
              (fresh linux_target)) = Some (sample_api ++ sample_api).
Proof. vm_compute. reflexivity. Qed.

(** An indicator defined with nothing after its name spoils the [#if]. *)
Example empty_indicator_rejected :
  shim_h_select (define TARGET_OS_TV Body_empty (fresh ios_target))
  = Fatal (Missing_operand TARGET_OS_TV).
Proof. vm_compute. reflexivity. Qed.

(** ** Both headers in one translation unit *)

Section Composition.

Variable fs : search_path.

Implicit Types (cfg : PlatformFlags) (st : tu_state) (d : directive) (h : header).

(** The directives work on the include bookkeeping and the declarations,
    [#define] on the macro table: the two pass each other. *)
Lemma run_define d g body st :
  run fs d (define g body st) = let* s := run fs d st in Ok (define g body s).
Proof.
  destruct d as [p|p]; simpl; unfold import, include;
    destruct (fs p) as [ds|]; simpl; try reflexivity;
    case_decide; reflexivity.
Qed.

Lemma define_comm g g' body body' st :
  g ≠ g' →
  define g body (define g' body' st) = define g' body' (define g body st).
Proof.
  intros Hne. unfold define; simpl. f_equal. by apply insert_insert_ne.
Qed.

Lemma select_alike st : ios_shim_h_select st = shim_h_select st.
Proof. symmetry. by apply select_same_flags. Qed.

(** Both headers on their first inclusion, one after the other. *)
Lemma shim_h_then_ios_shim_h st :
  defined CPRINTTRACE_SHIM_H st = false →
  defined CPRINTTRACE_IOS_SHIM_H st = false →
  (let* s := shim_h fs st in ios_shim_h fs s) =
  (let* d := shim_h_select st in
   let* s0 := run fs d st in
   let* s1 := run fs d s0 in
   Ok (define CPRINTTRACE_IOS_SHIM_H Body_empty
         (define CPRINTTRACE_SHIM_H Body_empty s1))).
Proof.
  intros Hg Hig.
  destruct (shim_h fs st) as [s|e] eqn:Hfirst; simpl.
  - destruct (ios_shim_h_after_shim_h fs _ _ Hfirst) as [Hd Hs].
    rewrite ios_shim_h_first by (by rewrite Hd). rewrite Hs, select_alike.
    rewrite shim_h_first in Hfirst by done.
    destruct (shim_h_select st) as [d|e]; simpl in *; [|discriminate].
    rewrite run_define in Hfirst.
    destruct (run fs d st) as [s0|e]; simpl in *; [|discriminate].
    injection Hfirst as <-. rewrite !run_define.
    by destruct (run fs d s0).
  - rewrite shim_h_first in Hfirst by done.
    destruct (shim_h_select st) as [d|e']; simpl in *; [|done].
    rewrite run_define in Hfirst.
    destruct (run fs d st) as [s0|e']; simpl in *; [discriminate | done].
Qed.

Lemma ios_shim_h_then_shim_h st :
  defined CPRINTTRACE_SHIM_H st = false →
  defined CPRINTTRACE_IOS_SHIM_H st = false →
  (let* s := ios_shim_h fs st in shim_h fs s) =
  (let* d := shim_h_select st in
   let* s0 := run fs d st in
   let* s1 := run fs d s0 in
   Ok (define CPRINTTRACE_SHIM_H Body_empty
         (define CPRINTTRACE_IOS_SHIM_H Body_empty s1))).
Proof.
  intros Hg Hig.
  destruct (ios_shim_h fs st) as [s|e] eqn:Hfirst; simpl.
  - destruct (shim_h_after_ios_shim_h fs _ _ Hfirst) as [Hd Hs].
    rewrite shim_h_first by (by rewrite Hd). rewrite Hs.
    rewrite ios_shim_h_first, select_alike in Hfirst by done.
    destruct (shim_h_select st) as [d|e]; simpl in *; [|discriminate].
    rewrite run_define in Hfirst.
    destruct (run fs d st) as [s0|e]; simpl in *; [|discriminate].
    injection Hfirst as <-. rewrite !run_define.
    by destruct (run fs d s0).
  - rewrite ios_shim_h_first, select_alike in Hfirst by done.
    destruct (shim_h_select st) as [d|e']; simpl in *; [|done].
    rewrite run_define in Hfirst.
    destruct (run fs d st) as [s0|e']; simpl in *; [discriminate | done].
Qed.

(** The two headers pass each other, from any state. *)
Lemma shims_swap st :
  (let* s := shim_h fs st in ios_shim_h fs s) =
  (let* s := ios_shim_h fs st in shim_h fs s).
Proof.
  destruct (defined CPRINTTRACE_SHIM_H st) eqn:Hg,
    (defined CPRINTTRACE_IOS_SHIM_H st) eqn:Hig.
  - by rewrite shim_h_guarded, ios_shim_h_guarded; simpl;
      rewrite ?shim_h_guarded, ?ios_shim_h_guarded.
  - rewrite shim_h_guarded by done; simpl.
    destruct (ios_shim_h fs st) as [s|e] eqn:Hios; simpl; [|done].
    destruct (shim_h_after_ios_shim_h fs _ _ Hios) as [Hd _].
    by rewrite shim_h_guarded by (by rewrite Hd).
  - rewrite ios_shim_h_guarded by done; simpl.
    destruct (shim_h fs st) as [s|e] eqn:Hshim; simpl; [|done].
    destruct (ios_shim_h_after_shim_h fs _ _ Hshim) as [Hd _].
    by rewrite ios_shim_h_guarded by (by rewrite Hd).
  - rewrite shim_h_then_ios_shim_h, ios_shim_h_then_shim_h by done.
    destruct (shim_h_select st) as [d|e]; simpl; [|done].
    destruct (run fs d st) as [s0|e]; simpl; [|done].
    destruct (run fs d s0) as [s1|e]; simpl; [|done].
    by rewrite define_comm by discriminate.
Qed.

Lemma process_idem h st st' : process fs h st = Ok st' → process fs h st' = Ok st'.
Proof. destruct h; simpl; [apply shim_h_idem | apply ios_shim_h_idem]. Qed.

Lemma includes_cons h l st :
  includes fs (h :: l) st = let* s := process fs h st in includes fs l s.
Proof. reflexivity. Qed.

Lemma includes_dup h l st :
  includes fs (h :: h :: l) st = includes fs (h :: l) st.
Proof.
  rewrite !includes_cons.
  destruct (process fs h st) as [s|e] eqn:Hp; simpl; [|done].
  by rewrite includes_cons, (process_idem _ _ _ Hp).
Qed.

Lemma bind_assoc {A B C : Type} (r : result A) (f : A → result B) (k : B → result C) :
  (let* b := (let* a := r in f a) in k b) = (let* a := r in let* b := f a in k b).
Proof. by destruct r. Qed.

Lemma includes_swap h1 h2 l st :
  includes fs (h1 :: h2 :: l) st = includes fs (h2 :: h1 :: l) st.
Proof.
  assert (Hsw : ∀ s,
    (let* s1 := shim_h fs s in let* s2 := ios_shim_h fs s1 in includes fs l s2) =
    (let* s1 := ios_shim_h fs s in let* s2 := shim_h fs s1 in includes fs l s2)).
  { intros s. by rewrite <- !bind_assoc, shims_swap. }
  destruct h1, h2; rewrite !includes_cons; simpl;
    first [reflexivity | apply Hsw | symmetry; apply Hsw].
Qed.

Lemma process_unguarded h st :
  defined (guard_of h) st = false →
  process fs h st =
    let* d := shim_h_select st in run fs d (define (guard_of h) Body_empty st).
Proof.
  destruct h; simpl; intros Hg.
  - by apply shim_h_first.
  - by rewrite ios_shim_h_first, select_alike.
Qed.

Lemma process_first cfg h st :
  defined (guard_of h) st = false →
  process fs h (configure cfg st) =
    run fs (selected cfg) (define (guard_of h) Body_empty (configure cfg st)).
Proof.
  destruct h; simpl;
    [apply shim_h_configure_first | apply ios_shim_h_configure_first].
Qed.

Lemma process_guarded h st :
  defined (guard_of h) st = true → process fs h st = Ok st.
Proof. destruct h; simpl; [apply shim_h_guarded | apply ios_shim_h_guarded]. Qed.

Lemma select_macros st st' :
  macros st = macros st' → shim_h_select st = shim_h_select st'.
Proof. intros Hm. apply select_same_flags. unfold same_flags. by rewrite Hm. Qed.

(** When a directive goes through and when it does not. *)
Lemma run_ok_iff d st :
  (∃ st', run fs d st = Ok st') ↔ is_Some (fs (path_of d)).
Proof.
  destruct d as [p|p]; simpl; unfold import, include;
    destruct (fs p) as [ds|]; simpl;
    (split; [intros [s Hs] | intros [x Hx]]);
    try discriminate; try done; case_decide; by eexists.
Qed.

Lemma run_fatal d st e :
  run fs d st = Fatal e →
  e = File_not_found (path_of d) ∧ fs (path_of d) = None.
Proof.
  destruct d as [p|p]; simpl; unfold import, include;
    destruct (fs p) as [ds|]; simpl;
    try (case_decide; discriminate); by intros [= <-].
Qed.

(** A directive only adds to what it works on. *)
Lemma run_grows d st st' :
  run fs d st = Ok st' →
  macros st' = macros st ∧ entered st ⊆ entered st' ∧
  once_only st ⊆ once_only st' ∧ decls st `prefix_of` decls st'.
Proof.
  destruct d as [p|p]; simpl; unfold import, include;
    destruct (fs p) as [ds|]; try discriminate;
    case_decide; intros [= <-]; simpl;
    repeat split; try set_solver; try done; by apply prefix_app_r.
Qed.

(** What an [#import] that went through leaves behind, and what that
    means for a later directive on the same header. *)
Lemma import_marks p st st' :
  import fs p st = Ok st' →
  p ∈ entered st' ∧ p ∈ once_only st' ∧ is_Some (fs p).
Proof.
  unfold import. destruct (fs p) as [ds|]; [|discriminate].
  case_decide; intros [= <-]; simpl; repeat split; try set_solver; by eexists.
Qed.

Lemma run_skips d st :
  is_Some (fs (path_of d)) →
  path_of d ∈ entered st → path_of d ∈ once_only st →
  ∃ st', run fs d st = Ok st' ∧ decls st' = decls st.
Proof.
  intros [ds Hfs] He Ho. destruct d as [p|p]; simpl in *;
    unfold import, include; rewrite Hfs, decide_True by done;
    eexists; repeat split.
Qed.

(** X1.  A translation unit may write its inclusions of shim.h and
    ios_shim.h in any order: two runs that are rearrangements of each
    other end in the same state, or in the same diagnostic. *)
Theorem inclusion_order_irrelevant (l l' : list header) st :
  l ≡ₚ l' → includes fs l st = includes fs l' st.
Proof.
  intros Hperm. revert st.
  induction Hperm as [|h l l' _ IH|h1 h2 l|l l' l'' _ IH1 _ IH2]; intros st.
  - reflexivity.
  - rewrite !includes_cons.
    destruct (process fs h st) as [s|e]; simpl; [apply IH | reflexivity].
  - apply includes_swap.
  - by rewrite IH1.
Qed.

(** X2.  Only which of the two headers a translation unit includes
    matters, not how often nor in which order: any run of inclusions ends
    as the run does that names each header occurring in it once. *)
Theorem inclusions_reduce_to_each_once (l : list header) st :
  includes fs l st = includes fs (each_once l) st.
Proof.
  revert st. induction l as [|h l IH]; intros st; [reflexivity|].
  transitivity (includes fs (h :: each_once l) st).
  { rewrite !includes_cons.
    destruct (process fs h st) as [s|e]; simpl; [apply IH | reflexivity]. }
  assert (Hlast : includes fs [Ios_shim_h; Shim_h; Ios_shim_h] st
                  = includes fs [Shim_h; Ios_shim_h] st).
  { rewrite includes_swap, includes_cons. symmetry. rewrite includes_cons.
    destruct (process fs Shim_h st) as [s|e]; simpl; [|reflexivity].
    symmetry. apply includes_dup. }
  unfold each_once.
  destruct (decide (Shim_h ∈ l)) as [Hs|Hs],
    (decide (Ios_shim_h ∈ l)) as [Hi|Hi], h; simpl;
    repeat match goal with
           | |- context [decide (?x ∈ ?y)] =>
               first [rewrite (decide_True (P := x ∈ y))
                        by (rewrite elem_of_cons; tauto)
                     |rewrite (decide_False (P := x ∈ y))
                        by (rewrite elem_of_cons; intros [?|?]; done)]
           end; simpl;
    first [reflexivity | apply includes_dup | apply includes_swap | apply Hlast].
Qed.

(** X3.  Under a configuration with indicators the preprocessor can
    hold, a header on its first inclusion goes
    through exactly when the one API header its conditional selects is on
    the search path; the other API header is never asked for.  A failure
    is always the missing-file diagnostic for the selected header. *)
Theorem shim_succeeds_iff_selected_header_found cfg h st :
  in_range cfg = true →
  defined (guard_of h) st = false →
  ((∃ st', process fs h (configure cfg st) = Ok st')
     ↔ is_Some (fs (path_of (selected cfg))))
  ∧ (∀ e, process fs h (configure cfg st) = Fatal e →
          e = File_not_found (path_of (selected cfg)) ∧
          fs (path_of (selected cfg)) = None).
Proof.
  intros _ Hg. rewrite process_first by done. split.
  - apply run_ok_iff.
  - intros e. apply run_fatal.
Qed.

(** X4.  On an Apple mobile target, told by indicators the preprocessor
    can hold, once either header has gone
    through, the framework header is marked as read, and nothing makes the
    translation unit read it again: a later [#import] or [#include] of it
    adds no declaration, and neither does a later inclusion of shim.h or
    ios_shim.h. *)
Theorem framework_header_read_once cfg h st s1 :
  in_range cfg = true →
  isAppleMobilePlatform cfg = true →
  defined (guard_of h) st = false →
  process fs h (configure cfg st) = Ok s1 →
  framework_header ∈ entered s1 ∧ framework_header ∈ once_only s1
  ∧ (∀ d, path_of d = framework_header →
          ∃ s2, run fs d s1 = Ok s2 ∧ decls s2 = decls s1)
  ∧ (∀ h', ∃ s2, process fs h' s1 = Ok s2 ∧ decls s2 = decls s1).
Proof.
  intros _ Hmob Hg Hok. apply selected_import in Hmob.
  rewrite process_first, Hmob in Hok by done.
  destruct (import_marks _ _ _ Hok) as (He & Ho & Hfs).
  split; [done|]. split; [done|]. split.
  - intros d Hd. apply run_skips; by rewrite Hd.
  - intros h'. destruct (defined (guard_of h') s1) eqn:Hg'.
    + exists s1. by rewrite process_guarded.
    + rewrite process_unguarded by done.
      assert (Hsel : shim_h_select s1 = Ok (Import framework_header)).
      { rewrite (select_macros s1 _ (run_macros fs _ _ _ Hok)).
        destruct h; simpl;
          by rewrite shim_h_select_define, shim_h_select_configure, Hmob
            by discriminate. }
      rewrite Hsel; simpl.
      destruct (run_skips (Import framework_header)
                  (define (guard_of h') Body_empty s1))
        as (s2 & Hrun & Hd); try done.
      by exists s2.
Qed.

(** X5.  Inclusions of the two headers only ever add: after any run of
    them that ends well, every macro defined before is still defined as it
    was, every header read or marked before still is, and the declarations
    visible before are still there, in front of the new ones. *)
Theorem inclusions_only_add (l : list header) st st' :
  includes fs l st = Ok st' →
  macros st ⊆ macros st' ∧ entered st ⊆ entered st' ∧
  once_only st ⊆ once_only st' ∧ decls st `prefix_of` decls st'.
Proof.
  revert st. induction l as [|h l IH]; intros st.
  - intros [= <-]. done.
  - rewrite includes_cons.
    destruct (process fs h st) as [s|e] eqn:Hp; simpl; [|discriminate].
    intros Hrest. destruct (IH _ Hrest) as (Hm & He & Ho & Hd).
    assert (Hstep : macros st ⊆ macros s ∧ entered st ⊆ entered s ∧
                    once_only st ⊆ once_only s ∧ decls st `prefix_of` decls s).
    { destruct (defined (guard_of h) st) eqn:Hg.
      - rewrite process_guarded in Hp by done. by injection Hp as <-.
      - rewrite process_unguarded in Hp by done.
        destruct (shim_h_select st) as [d|e]; simpl in Hp; [|discriminate].
        destruct (run_grows _ _ _ Hp) as (Hm' & He' & Ho' & Hd').
        simpl in *. rewrite Hm'. repeat split; try done.
        apply insert_subseteq. unfold defined in Hg.
        by destruct (macros st !! guard_of h). }
    destruct Hstep as (Hm1 & He1 & Ho1 & Hd1).
    repeat split; by etransitivity.
Qed.

(** X6.  For a translation unit that has met neither header, or both,
    it makes no difference which of shim.h and ios_shim.h it includes,
    except for the name of the guard left defined: the declarations, the
    headers read and the diagnostic on failure are the same. *)
Theorem shims_interchangeable st :
  defined CPRINTTRACE_SHIM_H st = defined CPRINTTRACE_IOS_SHIM_H st →
  decls_of (shim_h fs st) = decls_of (ios_shim_h fs st)
  ∧ entered_of (shim_h fs st) = entered_of (ios_shim_h fs st)
  ∧ (∀ e, shim_h fs st = Fatal e ↔ ios_shim_h fs st = Fatal e)
  ∧ (∀ s s', shim_h fs st = Ok s → ios_shim_h fs st = Ok s' →
       ∀ name, name ≠ CPRINTTRACE_SHIM_H → name ≠ CPRINTTRACE_IOS_SHIM_H →
               macros s !! name = macros s' !! name).
Proof.
  intros Hsame. destruct (defined CPRINTTRACE_SHIM_H st) eqn:Hg; symmetry in Hsame.
  - rewrite (shim_h_guarded fs st Hg), (ios_shim_h_guarded fs st Hsame).
    repeat split; try done. by intros s s' [= <-] [= <-].
  - rewrite (ios_shim_h_first fs st Hsame), select_alike, (shim_h_first fs st Hg).
    destruct (shim_h_select st) as [d|e0]; simpl.
    + rewrite !run_define.
      destruct (run fs d st) as [s0|e0]; simpl; repeat split; try done.
      intros s s' [= <-] [= <-] name H1 H2; simpl.
      by rewrite !lookup_insert_ne.
    + repeat split; done.
Qed.

End Composition.

(** ** The search path *)

Section Search_path.

Implicit Types (cfg : PlatformFlags) (st : tu_state) (h : header).

Lemma run_same_header (fs1 fs2 : search_path) (d : directive) st :
  fs1 (path_of d) = fs2 (path_of d) → run fs1 d st = run fs2 d st.
Proof.
  destruct d as [p|p]; simpl; unfold import, include; by intros ->.
Qed.

(** X7.  Under a configuration with indicators the preprocessor can
    hold, what a header does depends on the search
    path only through the API header its conditional selects: two search
    paths that agree there give the same outcome, whatever they say about
    the other API header. *)
Theorem other_header_never_consulted (fs1 fs2 : search_path) cfg h st :
  in_range cfg = true →
  fs1 (path_of (selected cfg)) = fs2 (path_of (selected cfg)) →
  process fs1 h (configure cfg st) = process fs2 h (configure cfg st).
Proof.
  intros _ Hagree. destruct (defined (guard_of h) st) eqn:Hg.
  - assert (Hc : defined (guard_of h) (configure cfg st) = true).
    { rewrite defined_configure; [done | destruct h; discriminate ..]. }
    by rewrite !process_guarded.
  - rewrite !process_first by done. by apply run_same_header.
Qed.

End Search_path.

(** ** The further theorems at sample build environments *)

Lemma inclusion_order_irrelevant_witness :
  includes both_installed [Shim_h; Ios_shim_h] (fresh linux_target)
  = includes both_installed [Ios_shim_h; Shim_h] (fresh linux_target).
Proof.
  apply (inclusion_order_irrelevant both_installed
           [Shim_h; Ios_shim_h] [Ios_shim_h; Shim_h] (fresh linux_target)).
  apply perm_swap.
Defined.

Lemma shim_succeeds_iff_selected_header_found_witness :
  ((∃ st', process plain_only Shim_h (fresh ios_target) = Ok st')
     ↔ is_Some (plain_only (path_of (selected ios_target))))
  ∧ (∀ e, process plain_only Shim_h (fresh ios_target) = Fatal e →
          e = File_not_found (path_of (selected ios_target)) ∧
          plain_only (path_of (selected ios_target)) = None).
Proof.
  apply (shim_succeeds_iff_selected_header_found plain_only ios_target
           Shim_h empty_tu); reflexivity.
Defined.

Lemma framework_header_read_once_witness :
  ∃ s2,
    process both_installed Ios_shim_h
      (Tu_state (<[CPRINTTRACE_SHIM_H := Body_empty]> (macros (fresh ios_target)))
         {[framework_header]} {[framework_header]} sample_api) = Ok s2
    ∧ decls s2 = sample_api.
Proof.
  destruct (framework_header_read_once both_installed ios_target Shim_h empty_tu
              (Tu_state (<[CPRINTTRACE_SHIM_H := Body_empty]> (macros (fresh ios_target)))
                 {[framework_header]} {[framework_header]} sample_api))
    as (_ & _ & _ & Hlater); [reflexivity | reflexivity | reflexivity | |].
  - vm_compute. reflexivity.
  - exact (Hlater Ios_shim_h).
Defined.

Lemma inclusions_only_add_witness :
  macros busy_tu ⊆ macros after_both_shims ∧
  entered busy_tu ⊆ entered after_both_shims ∧
  once_only busy_tu ⊆ once_only after_both_shims ∧
  decls busy_tu `prefix_of` decls after_both_shims.
Proof.
  apply (inclusions_only_add both_installed [Shim_h; Ios_shim_h]
           busy_tu after_both_shims).
  vm_compute. reflexivity.
Defined.

Lemma shims_interchangeable_witness :
  decls_of (shim_h both_installed busy_tu)
  = decls_of (ios_shim_h both_installed busy_tu).
Proof.
  destruct (shims_interchangeable both_installed busy_tu) as (Hd & _);
    [reflexivity | exact Hd].
Defined.

Lemma other_header_never_consulted_witness :
  process both_installed Ios_shim_h (fresh linux_target)
  = process plain_only Ios_shim_h (fresh linux_target).
Proof.
  apply (other_header_never_consulted both_installed plain_only linux_target
           Ios_shim_h empty_tu); reflexivity.
Defined.

(** A translation unit that repeats and mixes its inclusions. *)
Example mixed_inclusions_ios :
  decls_of (includes both_installed
              [Ios_shim_h; Shim_h; Ios_shim_h; Shim_h] (fresh ios_target))
  = Some sample_api.
Proof. vm_compute. reflexivity. Qed.
